(** * env.py: the cluster fixture generator

    A shallow embedding of [env.py], the script that builds the list [data]
    of cluster records for ten regions and twenty cluster slots, prints it as
    JSON and writes it to [env.json].

    Python values are modelled as follows: [str] as [string] (every string
    the script handles is ASCII), the indices produced by [range] and
    [enumerate] as [nat] (they are never negative), the list [data] as a
    [list], a record dictionary as a [Record] with its key order kept by
    [items], the file system as a [gmap] from paths to contents. *)

From Stdlib Require Import Ascii String DecimalString DecimalNat.
From stdpp Require Import gmap strings list fin_maps.


(** ** Python primitives used by the script *)

Module Py.

(** [str(n)] for a non-negative integer. *)
Definition str (n : nat) : string :=
  NilEmpty.string_of_uint (Nat.to_uint n).

(** [range(a, b)]. *)
Definition range (a b : nat) : list nat := seq a (b - a).

(** [enumerate(l)]. *)
Definition enumerate {A} (l : list A) : list (nat * A) :=
  combine (seq 0 (length l)) l.

(** [c.lower()] on one ASCII character. *)
Definition lower_ascii (c : ascii) : ascii :=
  let n := nat_of_ascii c in
  if ((65 <=? n) && (n <=? 90))%nat then ascii_of_nat (n + 32) else c.

(** [s.lower()] on an ASCII string. *)
Fixpoint lower (s : string) : string :=
  match s with
  | EmptyString => EmptyString
  | String c s' => String (lower_ascii c) (lower s')
  end.

(** The exceptions the script can meet: [l[i]] out of range, and a
    failing operating-system call. *)
Inductive exn : Type :=
| IndexError
| OSError (errno : nat).

(** [l[i]] for [0 <= i]. *)
Definition getitem {A} (l : list A) (i : nat) : exn + A :=
  match l !! i with
  | Some x => inr x
  | None => inl IndexError
  end.

End Py.

(** ** The record dictionary *)

Record ClusterRecord : Type := mkClusterRecord {
  region : string;
  name : string;
  type : string;
  urlPattern : string;
  displayName : string;
  regionalUrlPattern : string;
  clusterType : string
}.

(** [d.items()]: the keys in the order of the dictionary literal. *)
Definition items (d : ClusterRecord) : list (string * string) :=
  [ ("region", region d);
    ("name", name d);
    ("type", type d);
    ("urlPattern", urlPattern d);
    ("displayName", displayName d);
    ("regionalUrlPattern", regionalUrlPattern d);
    ("clusterType", clusterType d) ].

(** ** The generator *)

Definition regions : list string :=
  map (fun i => "R" +:+ Py.str i) (Py.range 1 11).

Definition types : list string := ["DEV"; "TEST"; "STG"; "PRD"].

(** The body of the inner loop: the dictionary appended for cluster [c]. *)
Definition cluster_record (region env env_lower : string) (c : nat)
  : ClusterRecord :=
  let cluster_type := if (c <=? 10)%nat then "Gen1" else "Gen2" in
  let name := "C" +:+ Py.str c in
  {| region := region;
     name := name;
     type := env;
     urlPattern :=
       "https://{api}." +:+ Py.lower name +:+ "." +:+ env_lower
         +:+ ".example.com";
     displayName := name;
     regionalUrlPattern := "https://{api}." +:+ env_lower +:+ ".example.com";
     clusterType := cluster_type |}.

(** [for c in range(1, 21): data.append({...})], threading [data]. *)
Definition cluster_loop (region env env_lower : string)
    (data : list ClusterRecord) : list ClusterRecord :=
  fold_left (fun data c => data ++ [cluster_record region env env_lower c])
            (Py.range 1 21) data.

(** One iteration of the outer loop. *)
Definition region_step (data : list ClusterRecord) (ir : nat * string)
  : Py.exn + list ClusterRecord :=
  let '(idx, region) := ir in
  match Py.getitem types (idx mod 4) with
  | inl e => inl e
  | inr env =>
      let env_lower := Py.lower env in
      inr (cluster_loop region env env_lower data)
  end.

(** [for idx, region in enumerate(regions): ...], stopping at the first
    exception. *)
Fixpoint region_loop (l : list (nat * string)) (data : list ClusterRecord)
  : Py.exn + list ClusterRecord :=
  match l with
  | [] => inr data
  | ir :: l' =>
      match region_step data ir with
      | inl e => inl e
      | inr data' => region_loop l' data'
      end
  end.

(** The value of [data] after the loops, or the exception they raised. *)
Definition build_data : Py.exn + list ClusterRecord :=
  region_loop (Py.enumerate regions) [].

(** The list [data] when the loops end normally. *)
Definition data : list ClusterRecord :=
  match build_data with
  | inr d => d
  | inl _ => []
  end.

(** ** The JSON encoder, as [json.dumps] and [json.dump] use it

    The encoder of the standard library, restricted to the shape the script
    gives it: a list of dictionaries from strings to strings.  [iterencode]
    yields the chunks of the pure-Python encoder that [indent=2] selects;
    [dumps] joins them, [dump] writes them one by one. *)

Module Json.

Definition chr (n : nat) : string := String (ascii_of_nat n) EmptyString.

Definition hex_digit (n : nat) : string :=
  chr (if (n <? 10)%nat then 48 + n else 87 + n).

(** The replacement of one character by [encode_basestring_ascii]. *)
Definition escape_char (c : ascii) : string :=
  let n := nat_of_ascii c in
  if (n =? 34)%nat then chr 92 +:+ chr 34
  else if (n =? 92)%nat then chr 92 +:+ chr 92
  else if (n =? 8)%nat then chr 92 +:+ "b"
  else if (n =? 9)%nat then chr 92 +:+ "t"
  else if (n =? 10)%nat then chr 92 +:+ "n"
  else if (n =? 12)%nat then chr 92 +:+ "f"
  else if (n =? 13)%nat then chr 92 +:+ "r"
  else if ((32 <=? n) && (n <=? 126))%nat then String c EmptyString
  else chr 92 +:+ "u00" +:+ hex_digit (n / 16) +:+ hex_digit (n mod 16).

Fixpoint escape (s : string) : string :=
  match s with
  | EmptyString => EmptyString
  | String c s' => escape_char c +:+ escape s'
  end.

Definition encode_basestring_ascii (s : string) : string :=
  chr 34 +:+ escape s +:+ chr 34.

Fixpoint spaces (n : nat) : string :=
  match n with
  | O => EmptyString
  | S n' => String " "%char (spaces n')
  end.

Section Encoder.

(** The [indent] argument. *)
Variable indent : nat.

Definition newline_indent (level : nat) : string :=
  chr 10 +:+ spaces (indent * level).

Definition item_separator (level : nat) : string :=
  "," +:+ newline_indent level.

Definition key_separator : string := ": ".

(** The chunks of the entries of a dictionary at nesting [level]. *)
Fixpoint iterencode_items (first : bool) (kvs : list (string * string))
    (level : nat) : list string :=
  match kvs with
  | [] => []
  | (key, value) :: kvs' =>
      (if first then [] else [item_separator level])
        ++ [encode_basestring_ascii key; key_separator;
            encode_basestring_ascii value]
        ++ iterencode_items false kvs' level
  end.

Definition iterencode_dict (kvs : list (string * string))
    (current_indent_level : nat) : list string :=
  match kvs with
  | [] => ["{}"]
  | _ =>
      let level := S current_indent_level in
      ["{"; newline_indent level]
        ++ iterencode_items true kvs level
        ++ [newline_indent current_indent_level; "}"]
  end.

(** The chunks of the elements of a list at nesting [level]; [buf] is
    what precedes the next element. *)
Fixpoint iterencode_elems (buf : string)
    (lst : list (list (string * string))) (level : nat) : list string :=
  match lst with
  | [] => []
  | value :: lst' =>
      buf :: iterencode_dict value level
        ++ iterencode_elems (item_separator level) lst' level
  end.

Definition iterencode_list (lst : list (list (string * string)))
    (current_indent_level : nat) : list string :=
  match lst with
  | [] => ["[]"]
  | _ =>
      let level := S current_indent_level in
      iterencode_elems ("[" +:+ newline_indent level) lst level
        ++ [newline_indent current_indent_level; "]"]
  end.

Definition iterencode (obj : list ClusterRecord) : list string :=
  iterencode_list (map items obj) 0.

(** [json.dumps(obj, indent=indent)]: the chunks joined. *)
Definition dumps (obj : list ClusterRecord) : string :=
  String.concat EmptyString (iterencode obj).

End Encoder.

End Json.

(** ** The calls on file objects and their failures

    The script reaches the outside through calls on two file objects:
    [sys.stdout] ([print]) and the object [f] that [open] returns.  The
    model stays at the level of these calls.  A world records every call
    attempted so far with its outcome and, for standard output and for each
    file, the text handed over by the calls that returned.  Whether a call
    raises is not decided by the script: [faults k] is the [errno] of the
    [OSError] raised by the call number [k] of the world's history, if it
    raises.

    Not modelled: how much of the text of a call that raises got through,
    when the text the file objects buffer reaches the operating system, and
    what the interpreter does after the last line of the script (its flush
    of standard output and its exit status).  The text of a world is
    therefore what the operating system holds only after a run that ends
    normally and whose buffers were flushed; the statements about runs that
    end with an exception speak of the calls and of the exception. *)

Inductive call : Type :=
| StdoutWrite (text : string)
| Open (path : string)
| Write (path : string) (text : string)
| Close (path : string).

Record World : Type := mkWorld {
  stdout : string;
  fs : gmap string string;
  history : list (call * option nat)
}.

Definition is_stdout (c : call) : Prop :=
  match c with StdoutWrite _ => True | _ => False end.

Definition on_file (path : string) (c : call) : Prop :=
  match c with
  | StdoutWrite _ => False
  | Open p | Write p _ | Close p => p = path
  end.


Module IO.

(** A computation: from a world to the next world and either the
    exception raised or the value returned. *)
Definition IO (A : Type) : Type := World -> World * (Py.exn + A).

Definition ret {A} (x : A) : IO A := fun w => (w, inr x).

Definition bind {A B} (m : IO A) (k : A -> IO B) : IO B := fun w =>
  match m w with
  | (w', inl e) => (w', inl e)
  | (w', inr x) => k x w'
  end.

(** A pure computation that may raise. *)
Definition lift {A} (r : Py.exn + A) : IO A := fun w => (w, r).

End IO.

Notation "x <- m ;; k" := (IO.bind m (fun x => k))
  (at level 100, m at next level, right associativity).
Notation "m ;;; k" := (IO.bind m (fun _ => k))
  (at level 100, right associativity).

Section Script.

Variable faults : nat -> option nat.

Definition os_call (c : call) (effect : World -> World) : IO.IO unit :=
  fun w =>
    let outcome := faults (length (history w)) in
    let w1 := mkWorld (stdout w) (fs w) (history w ++ [(c, outcome)]) in
    match outcome with
    | Some errno => (w1, inl (Py.OSError errno))
    | None => (effect w1, inr tt)
    end.

(** [sys.stdout.write(text)]. *)
Definition stdout_write (text : string) : IO.IO unit :=
  os_call (StdoutWrite text)
    (fun w => mkWorld (stdout w +:+ text) (fs w) (history w)).

(** [print(text)]: the text, then the line end. *)
Definition print (text : string) : IO.IO unit :=
  stdout_write text ;;; stdout_write (Json.chr 10).

(** [open(path, 'w')]: the file is created or truncated; the file
    object is identified by its path. *)
Definition open_w (path : string) : IO.IO string :=
  os_call (Open path)
    (fun w => mkWorld (stdout w) (<[path := EmptyString]> (fs w))
                      (history w)) ;;;
  IO.ret path.

(** [f.write(text)]. *)
Definition write (f : string) (text : string) : IO.IO unit :=
  os_call (Write f text)
    (fun w => mkWorld (stdout w)
                      (<[f := default EmptyString (fs w !! f) +:+ text]>
                         (fs w))
                      (history w)).

(** [f.close()]. *)
Definition close (f : string) : IO.IO unit :=
  os_call (Close f) (fun w => w).

(** [with open(path, 'w') as f: body]: the file is closed on every way
    out of the body; an exception of the body goes on after that, unless
    closing raises one itself. *)
Definition with_open (path : string) (body : string -> IO.IO unit)
  : IO.IO unit := fun w =>
  match open_w path w with
  | (w1, inl e) => (w1, inl e)
  | (w1, inr f) =>
      match body f w1 with
      | (w2, inl e) =>
          match close f w2 with
          | (w3, inl e') => (w3, inl e')
          | (w3, inr _) => (w3, inl e)
          end
      | (w2, inr _) => close f w2
      end
  end.

(** [for x in l: body]. *)
Fixpoint for_each {A} (l : list A) (body : A -> IO.IO unit) : IO.IO unit :=
  match l with
  | [] => IO.ret tt
  | x :: l' => body x ;;; for_each l' body
  end.

(** [json.dump(obj, fp, indent=indent)]. *)
Definition json_dump (obj : list ClusterRecord) (fp : string)
    (indent : nat) : IO.IO unit :=
  for_each (Json.iterencode indent obj) (write fp).

(** The script, from its first line to its last. *)
Definition main : IO.IO unit :=
  data <- IO.lift build_data ;;
  print (Json.dumps 2 data) ;;;
  with_open "env.json" (fun f => json_dump data f 2).

End Script.

(** A world before any run, and an environment in which no call raises. *)
Definition initial_world : World := mkWorld EmptyString ∅ [].
Definition no_faults : nat -> option nat := fun _ => None.

(** ** Definitions used to state the properties *)

(** The tier read from [types] for the region at position [idx]. *)
Definition tier (idx : nat) : string :=
  default EmptyString (types !! (idx mod 4)).

(** The record the loops build for the region [rg] at position [idx] and
    the cluster index [c]. *)
Definition record_at (idx : nat) (rg : string) (c : nat) : ClusterRecord :=
  cluster_record rg (tier idx) (Py.lower (tier idx)) c.

(** The records one iteration of the outer loop appends. *)
Definition region_block (ir : nat * string) : list ClusterRecord :=
  map (record_at ir.1 ir.2) (Py.range 1 21).

(** [regions.index(rg)], when [rg] is a region. *)
Fixpoint index_of (rg : string) (l : list string) : option nat :=
  match l with
  | [] => None
  | x :: l' => if String.eqb x rg then Some 0 else S <$> index_of rg l'
  end.

Definition region_position (rg : string) : option nat := index_of rg regions.

(** The records of [data] whose region is [rg], in the order of [data]. *)
Definition records_of (rg : string) : list ClusterRecord :=
  List.filter (fun r => String.eqb (region r) rg) data.

(** The number written after the first character of a name. *)
Definition numeric_suffix (s : string) : option nat :=
  match s with
  | EmptyString => None
  | String _ digits => Nat.of_uint <$> NilEmpty.uint_of_string digits
  end.

(** [sub in s]. *)
Definition contains (sub s : string) : Prop :=
  exists pre post, s = pre +:+ sub +:+ post.

(** The name written for cluster index [c]. *)
Definition cluster_name (c : nat) : string := "C" +:+ Py.str c.

(** The records of the region [rg] all have tier [t], and there are
    some. *)
Definition region_has_tier (rg t : string) : Prop :=
  records_of rg <> [] /\
  forall r, r ∈ data -> region r = rg -> type r = t.

(** ** Definitions used to state the properties of runs *)

(** The text [json.dumps(data, indent=2)]. *)
Definition rendered : string := Json.dumps 2 data.

(** The line end [print] adds. *)
Definition newline : string := Json.chr 10.

(** The calls of a run in which none raises, in order. *)
Definition script_calls : list call :=
  [StdoutWrite rendered; StdoutWrite newline; Open "env.json"]
    ++ map (Write "env.json") (Json.iterencode 2 data)
    ++ [Close "env.json"].

(** The calls the script makes at all. *)
Definition script_call (c : call) : Prop :=
  is_stdout c \/ on_file "env.json" c.

(** A string literal as JSON prints it when nothing needs escaping. *)
Definition quoted (s : string) : string := Json.chr 34 +:+ s +:+ Json.chr 34.

(** The entry of a call that did not raise. *)
Definition returned (c : call) : call * option nat := (c, None).

(** An environment in which the first call raises [EPIPE]. *)
Definition broken_stdout : nat -> option nat :=
  fun k => if (k =? 0)%nat then Some 32 else None.

(** The chunks [json.dump] hands to [f.write], in order. *)
Definition chunks : list string := Json.iterencode 2 data.

(** The entries of the three calls made before the first [f.write], when
    all three returned. *)
Definition opening : list (call * option nat) :=
  map returned
      [StdoutWrite rendered; StdoutWrite newline; Open "env.json"].

(** The entries of the writes of the chunks [l] to [env.json], when all
    returned. *)
Definition written (l : list string) : list (call * option nat) :=
  map (fun t => returned (Write "env.json" t)) l.

(** The text standard output has accepted from a run once [k] of its calls
    have returned. *)
Definition printed (k : nat) : string :=
  match k with
  | 0 => EmptyString
  | 1 => rendered
  | _ => rendered +:+ newline
  end.

(** A character [encode_basestring_ascii] leaves as it is: printable
    ASCII other than the double quote and the backslash. *)
Definition plain_char (c : ascii) : bool :=
  let n := nat_of_ascii c in
  ((32 <=? n) && (n <=? 126) && negb (n =? 34) && negb (n =? 92))%nat.

Fixpoint plain (s : string) : bool :=
  match s with
  | EmptyString => true
  | String c s' => plain_char c && plain s'
  end.

(** The records of [data] whose tier is [t]. *)
Definition records_of_tier (t : string) : list ClusterRecord :=
  List.filter (fun r => String.eqb (type r) t) data.

(** [urlPattern] tells two records apart exactly when [name] or [type]
    does. *)
Definition same_pattern_same_slot (r1 r2 : ClusterRecord) : bool :=
  Bool.eqb (String.eqb (urlPattern r1) (urlPattern r2))
           (String.eqb (name r1) (name r2)
            && String.eqb (type r1) (type r2)).

(** The texts of the writes to a file among the entries [l], in order,
    each with the outcome of its write. *)
Fixpoint writes_of (l : list (call * option nat))
  : list (string * option nat) :=
  match l with
  | [] => []
  | (Write _ t, o) :: l' => (t, o) :: writes_of l'
  | _ :: l' => writes_of l'
  end.

(** No call of [l] raised. *)
Definition quiet (l : list (call * option nat)) : Prop :=
  Forall (fun entry => entry.2 = None) l.

(** No entry of [l] is the closing of [env.json]. *)
Definition unclosed (l : list (call * option nat)) : Prop :=
  Forall (fun entry => entry.1 <> Close "env.json") l.

(** A world with an older [env.json] and another file, after some text
    on standard output. *)
Definition used_world : World :=
  mkWorld "earlier output"
          (<["env.json" := "old contents"]> (<["notes.txt" := "kept"]> ∅))
          [].

(** An environment in which the third [f.write] raises [ENOSPC]. *)
Definition broken_write : nat -> option nat :=
  fun k => if (k =? 5)%nat then Some 28 else None.


(** The outcomes recorded in [new], appended to a history of length [n],
    are those [faults] gives. *)
Definition outcomes_from (faults : nat -> option nat) (n : nat)
    (new : list (call * option nat)) : Prop :=
  forall i c o, new !! i = Some (c, o) -> o = faults (n + i).

(** What a computation does to the history: it appends calls allowed by
    [P] with the outcomes [faults] gives; it raises only an [OSError] that
    one of these calls raised, and returns only if none of them raised. *)
Definition sound {A} (faults : nat -> option nat) (P : call -> Prop)
    (m : IO.IO A) : Prop :=
  forall w w' r,
    m w = (w', r) ->
    exists new,
      history w' = history w ++ new /\
      Forall (fun entry => P entry.1) new /\
      outcomes_from faults (length (history w)) new /\
      match r with
      | inl e => exists c errno, (c, Some errno) ∈ new /\ e = Py.OSError errno
      | inr _ => Forall (fun entry => entry.2 = None) new
      end.

(** ** Sample values *)

Section Samples.

Example first_record :
  data !! 0
  = Some {| region := "R1"; name := "C1"; type := "DEV";
            urlPattern := "https://{api}.c1.dev.example.com";
            displayName := "C1";
            regionalUrlPattern := "https://{api}.dev.example.com";
            clusterType := "Gen1" |}.
Proof. reflexivity. Qed.

Example last_record :
  data !! 199
  = Some {| region := "R10"; name := "C20"; type := "TEST";
            urlPattern := "https://{api}.c20.test.example.com";
            displayName := "C20";
            regionalUrlPattern := "https://{api}.test.example.com";
            clusterType := "Gen2" |}.
Proof. reflexivity. Qed.

Example regional_pattern_prd :
  regionalUrlPattern <$> data !! 60 = Some "https://{api}.prd.example.com".
Proof. reflexivity. Qed.

Example lower_mixed : Py.lower "C17-Stg" = "c17-stg".
Proof. reflexivity. Qed.

Example escape_sample :
  Json.escape ("a" +:+ Json.chr 34 +:+ Json.chr 10 +:+ Json.chr 1)
  = "a" +:+ Json.chr 92 +:+ Json.chr 34 +:+ Json.chr 92 +:+ "n"
      +:+ Json.chr 92 +:+ "u0001".
Proof. reflexivity. Qed.

Example dumps_empty : Json.dumps 2 [] = "[]".
Proof. reflexivity. Qed.

Example dumps_first_record :
  Json.dumps 2 (take 1 data)
  = String.concat (Json.chr 10)
      [ "[";
        "  {";
        "    " +:+ quoted "region" +:+ ": " +:+ quoted "R1" +:+ ",";
        "    " +:+ quoted "name" +:+ ": " +:+ quoted "C1" +:+ ",";
        "    " +:+ quoted "type" +:+ ": " +:+ quoted "DEV" +:+ ",";
        "    " +:+ quoted "urlPattern" +:+ ": "
          +:+ quoted "https://{api}.c1.dev.example.com" +:+ ",";
        "    " +:+ quoted "displayName" +:+ ": " +:+ quoted "C1" +:+ ",";
        "    " +:+ quoted "regionalUrlPattern" +:+ ": "
          +:+ quoted "https://{api}.dev.example.com" +:+ ",";
        "    " +:+ quoted "clusterType" +:+ ": " +:+ quoted "Gen1";
        "  }";
        "]" ].
Proof. by vm_compute. Qed.

Example chunks_of_a_run : length (Json.iterencode 2 data) = 200 * 32 + 2.
Proof. by vm_compute. Qed.

End Samples.

(** ** The list [data] *)

Section Loops.

Lemma append_loop {A B} (f : A -> B) (l : list A) (acc : list B) :
  fold_left (fun acc x => acc ++ [f x]) l acc = acc ++ map f l.
Proof.
  revert acc. induction l as [|x l IH]; intros acc; simpl.
  - by rewrite app_nil_r.
  - rewrite IH. by rewrite <- app_assoc.
Qed.

Lemma cluster_loop_spec rg env env_lower d :
  cluster_loop rg env env_lower d
  = d ++ map (cluster_record rg env env_lower) (Py.range 1 21).
Proof. apply append_loop. Qed.

(** The subscript [types[idx % 4]] never raises. *)
Lemma getitem_types idx : Py.getitem types (idx mod 4) = inr (tier idx).
Proof.
  unfold Py.getitem, tier.
  assert (H : idx mod 4 < 4) by (apply Nat.mod_upper_bound; lia).
  destruct (idx mod 4) as [|[|[|[|k]]]]; try reflexivity; lia.
Qed.

Lemma region_step_spec d ir :
  region_step d ir = inr (d ++ region_block ir).
Proof.
  destruct ir as [idx rg]. unfold region_step.
  rewrite getitem_types. by rewrite cluster_loop_spec.
Qed.

Lemma region_loop_spec l d :
  region_loop l d = inr (d ++ flat_map region_block l).
Proof.
  revert d. induction l as [|ir l IH]; intros d; simpl.
  - by rewrite app_nil_r.
  - rewrite region_step_spec, IH. by rewrite <- app_assoc.
Qed.

(** The loops end normally, with [data]. *)
Lemma build_data_ok : build_data = inr data.
Proof. unfold data, build_data. by rewrite region_loop_spec. Qed.

Lemma data_blocks : data = flat_map region_block (Py.enumerate regions).
Proof.
  unfold data, build_data. by rewrite region_loop_spec.
Qed.

End Loops.

Section Lookup.

Lemma lookup_enumerate_from {A} (l : list A) s q :
  combine (seq s (length l)) l !! q = (fun x => (s + q, x)) <$> l !! q.
Proof.
  revert s q. induction l as [|x l IH]; intros s q; simpl.
  - done.
  - destruct q as [|q]; simpl.
    + by rewrite Nat.add_0_r.
    + rewrite IH. by rewrite Nat.add_succ_r.
Qed.

Lemma lookup_enumerate {A} (l : list A) q :
  Py.enumerate l !! q = (fun x => (q, x)) <$> l !! q.
Proof. apply lookup_enumerate_from. Qed.

(** Lookup in a concatenation of blocks of one length [n]. *)
Lemma lookup_flat_map_uniform {A B} (f : A -> list B) n (l : list A) :
  (forall x, length (f x) = n) -> 0 < n ->
  forall i, flat_map f l !! i = l !! (i / n) ≫= fun x => f x !! (i mod n).
Proof.
  intros Hlen Hn. induction l as [|a l IH]; intros i; simpl.
  - done.
  - destruct (decide (i < n)) as [Hlt|Hge].
    + rewrite lookup_app_l by (by rewrite Hlen).
      rewrite Nat.div_small, Nat.mod_small by done. done.
    + rewrite lookup_app_r by (rewrite Hlen; lia).
      rewrite Hlen, IH.
      replace (i / n) with (S ((i - n) / n)).
      * replace (i mod n) with ((i - n) mod n); [done|].
        replace i with ((i - n) + 1 * n) at 2 by lia.
        by rewrite Nat.Div0.mod_add.
      * replace i with ((i - n) + 1 * n) at 2 by lia.
        rewrite Nat.div_add by lia. lia.
Qed.

Lemma length_region_block ir : length (region_block ir) = 20.
Proof. unfold region_block. by rewrite length_map. Qed.

(** The record at every position of [data]. *)
Lemma data_lookup i :
  data !! i
  = (fun rg => record_at (i / 20) rg (S (i mod 20))) <$> regions !! (i / 20).
Proof.
  rewrite data_blocks.
  rewrite (lookup_flat_map_uniform _ 20) by (apply length_region_block || lia).
  rewrite lookup_enumerate.
  destruct (regions !! (i / 20)) as [rg|]; [|done].
  cbn [fmap option_fmap option_map mbind option_bind].
  unfold region_block, Py.range. cbn [fst snd].
  change (21 - 1) with 20.
  rewrite list_lookup_fmap, lookup_seq_lt
    by (apply Nat.mod_upper_bound; lia).
  done.
Qed.

Lemma length_regions : length regions = 10.
Proof. reflexivity. Qed.

Lemma length_data : length data = 200.
Proof. reflexivity. Qed.

(** Membership in [data]. *)
Lemma elem_of_data r :
  r ∈ data <->
  exists idx rg c,
    regions !! idx = Some rg /\ 1 <= c <= 20 /\ r = record_at idx rg c.
Proof.
  rewrite data_blocks, list_elem_of_In, in_flat_map. split.
  - intros ([idx rg] & Hin & Hr).
    apply list_elem_of_In, list_elem_of_lookup in Hin as [q Hq].
    rewrite lookup_enumerate in Hq.
    destruct (regions !! q) as [rg'|] eqn:Hrg; cbn in Hq; [|done].
    injection Hq as <- <-.
    apply in_map_iff in Hr as (c & <- & Hc).
    apply in_seq in Hc. exists q, rg', c. split_and!; [done|lia|lia|done].
  - intros (idx & rg & c & Hrg & Hc & ->).
    exists (idx, rg). split.
    + apply list_elem_of_In, list_elem_of_lookup. exists idx.
      by rewrite lookup_enumerate, Hrg.
    + apply in_map_iff. exists c. split; [done|].
      apply in_seq. lia.
Qed.

End Lookup.

(** ** Facts about regions, tiers and names *)

Section Names.

Lemma regions_explicit :
  regions = ["R1"; "R2"; "R3"; "R4"; "R5"; "R6"; "R7"; "R8"; "R9"; "R10"].
Proof. reflexivity. Qed.

Lemma NoDup_regions : NoDup regions.
Proof. apply (bool_decide_unpack (NoDup regions)). by vm_compute. Qed.

Lemma regions_lookup q rg :
  regions !! q = Some rg -> q < 10 /\ rg = "R" +:+ Py.str (S q).
Proof.
  unfold regions, Py.range. rewrite list_lookup_fmap. intros H.
  destruct (seq 1 (11 - 1) !! q) as [k|] eqn:Hk; [|done].
  apply lookup_seq in Hk as [-> Hq]. cbn in H. injection H as <-.
  split; [exact Hq|done].
Qed.

Lemma regions_lookup_lt q : q < 10 -> is_Some (regions !! q).
Proof. intros H. apply lookup_lt_is_Some. by rewrite length_regions. Qed.

Lemma types_lookup idx : types !! (idx mod 4) = Some (tier idx).
Proof.
  pose proof (getitem_types idx) as H. unfold Py.getitem in H.
  destruct (types !! (idx mod 4)); [by injection H as -> | done].
Qed.

Lemma index_of_lookup (l : list string) q x :
  NoDup l -> l !! q = Some x -> index_of x l = Some q.
Proof.
  intros Hnd. revert q. induction Hnd as [|y l Hy Hnd IH]; intros q Hq.
  - done.
  - destruct q as [|q]; simpl in *.
    + injection Hq as ->. by rewrite String.eqb_refl.
    + destruct (String.eqb_spec y x) as [->|Hne].
      * exfalso. apply Hy. by eapply list_elem_of_lookup_2.
      * by rewrite (IH q Hq).
Qed.

Lemma region_position_lookup q rg :
  regions !! q = Some rg -> region_position rg = Some q.
Proof. apply index_of_lookup, NoDup_regions. Qed.

Lemma str_inj a b : Py.str a = Py.str b -> a = b.
Proof.
  unfold Py.str. intros H.
  apply (f_equal NilEmpty.uint_of_string) in H.
  rewrite !NilEmpty.usu in H. injection H as H.
  by apply DecimalNat.Unsigned.to_uint_inj.
Qed.

Lemma numeric_suffix_name c : numeric_suffix ("C" +:+ Py.str c) = Some c.
Proof.
  change ("C" +:+ Py.str c) with (String "C" (Py.str c)).
  unfold numeric_suffix, Py.str.
  rewrite NilEmpty.usu. cbn. by rewrite DecimalNat.Unsigned.of_to.
Qed.

(** The projections of [record_at]. *)
Lemma region_record_at idx rg c : region (record_at idx rg c) = rg.
Proof. reflexivity. Qed.

Lemma name_record_at idx rg c : name (record_at idx rg c) = "C" +:+ Py.str c.
Proof. reflexivity. Qed.

Lemma type_record_at idx rg c : type (record_at idx rg c) = tier idx.
Proof. reflexivity. Qed.

(** A record of [data] sits in the region named by its [region] field. *)
Lemma elem_of_data_region r idx rg :
  r ∈ data -> regions !! idx = Some rg -> region r = rg ->
  exists c, 1 <= c <= 20 /\ r = record_at idx rg c.
Proof.
  intros (idx' & rg' & c & Hrg' & Hc & ->)%elem_of_data Hrg Hreg.
  rewrite region_record_at in Hreg. subst rg'.
  assert (idx' = idx) as -> by (eapply NoDup_lookup; eauto using NoDup_regions).
  by exists c.
Qed.

End Names.

(** Case analysis on a member of [regions]. *)
Ltac region_cases H :=
  rewrite regions_explicit in H;
  repeat (apply elem_of_cons in H as [->|H]);
  [..|by apply elem_of_nil in H].

(** ** Properties of the generated list *)

Section DataProperties.

Lemma names_of_region rg :
  rg ∈ regions -> map name (records_of rg) = map cluster_name (seq 1 20).
Proof. intros H. region_cases H; by vm_compute. Qed.

Lemma region_of_lookup i r :
  data !! i = Some r ->
  regions !! (i / 20) = Some (region r) /\
  r = record_at (i / 20) (region r) (S (i mod 20)).
Proof.
  rewrite data_lookup. intros H.
  destruct (regions !! (i / 20)) as [rg|]; [|done].
  cbn in H. injection H as <-. by rewrite region_record_at.
Qed.

(** C1: [data] holds exactly 200 records, ten regions times twenty
    cluster slots, in region-major order: of two records the earlier one
    belongs to a region whose position in [regions] is not greater, and the
    records of each region carry the names C1 to C20 in increasing order of
    the cluster index. *)
Theorem data_region_major :
  length data = 200 /\ length regions = 10 /\
  (forall i j ri rj,
      i < j -> data !! i = Some ri -> data !! j = Some rj ->
      exists pi pj,
        region_position (region ri) = Some pi /\
        region_position (region rj) = Some pj /\ pi <= pj) /\
  (forall rg,
      rg ∈ regions ->
      map name (records_of rg) = map cluster_name (seq 1 20)).
Proof.
  split_and!.
  - apply length_data.
  - apply length_regions.
  - intros i j ri rj Hij [Hi _]%region_of_lookup [Hj _]%region_of_lookup.
    exists (i / 20), (j / 20). split_and!.
    + by apply region_position_lookup.
    + by apply region_position_lookup.
    + apply Nat.Div0.div_le_mono. lia.
  - apply names_of_region.
Qed.

Lemma region_tier_at idx rg :
  regions !! idx = Some rg -> region_has_tier rg (tier idx).
Proof.
  intros Hrg. split.
  - assert (Hin : rg ∈ regions) by (by eapply list_elem_of_lookup_2).
    apply names_of_region in Hin. intros Hnil. by rewrite Hnil in Hin.
  - intros r Hr Hreg.
    by destruct (elem_of_data_region r idx rg Hr Hrg Hreg) as (c & _ & ->).
Qed.

(** C3: the [type] of every record of the region at zero-based position
    [idx] is the element of [types] at index [idx mod 4]; so R1 is DEV, R2
    TEST, R3 STG, R4 PRD, R5 DEV and R10 TEST. *)
Theorem tier_round_robin :
  (forall idx,
      idx < 10 ->
      exists rg,
        regions !! idx = Some rg /\
        forall r, r ∈ data -> region r = rg ->
                  types !! (idx mod 4) = Some (type r)) /\
  region_has_tier "R1" "DEV" /\ region_has_tier "R2" "TEST" /\
  region_has_tier "R3" "STG" /\ region_has_tier "R4" "PRD" /\
  region_has_tier "R5" "DEV" /\ region_has_tier "R10" "TEST".
Proof.
  split_and!.
  - intros idx Hidx.
    destruct (regions_lookup_lt idx Hidx) as [rg Hrg].
    exists rg. split; [done|]. intros r Hr Hreg.
    rewrite types_lookup. f_equal. symmetry.
    by apply (region_tier_at idx rg Hrg).
  - by apply (region_tier_at 0).
  - by apply (region_tier_at 1).
  - by apply (region_tier_at 2).
  - by apply (region_tier_at 3).
  - by apply (region_tier_at 4).
  - by apply (region_tier_at 9).
Qed.

(** C4: for a record with name N and tier T, [urlPattern] is
    "https://{api}." followed by lower-case N, a dot, lower-case T and
    ".example.com", and [regionalUrlPattern] is "https://{api}." followed
    by lower-case T and ".example.com"; both contain "{api}" as it stands;
    a record named C5 of tier DEV has the pattern
    "https://{api}.c5.dev.example.com", and there is one. *)
Theorem url_patterns :
  (forall r,
      r ∈ data ->
      urlPattern r
      = "https://{api}." +:+ Py.lower (name r) +:+ "."
          +:+ Py.lower (type r) +:+ ".example.com" /\
      regionalUrlPattern r
      = "https://{api}." +:+ Py.lower (type r) +:+ ".example.com" /\
      contains "{api}" (urlPattern r) /\
      contains "{api}" (regionalUrlPattern r)) /\
  (forall r,
      r ∈ data -> name r = "C5" -> type r = "DEV" ->
      urlPattern r = "https://{api}.c5.dev.example.com") /\
  (exists r, r ∈ data /\ name r = "C5" /\ type r = "DEV").
Proof.
  assert (Hgen : forall r, r ∈ data ->
    urlPattern r
    = "https://{api}." +:+ Py.lower (name r) +:+ "."
        +:+ Py.lower (type r) +:+ ".example.com" /\
    regionalUrlPattern r
    = "https://{api}." +:+ Py.lower (type r) +:+ ".example.com").
  { intros r (idx & rg & c & _ & _ & ->)%elem_of_data. by split. }
  split_and!.
  - intros r Hr. destruct (Hgen r Hr) as [Hu Hg]. split_and!; [done|done|..].
    + rewrite Hu. by exists "https://", ("." +:+ Py.lower (name r) +:+ "."
        +:+ Py.lower (type r) +:+ ".example.com").
    + rewrite Hg.
      by exists "https://", ("." +:+ Py.lower (type r) +:+ ".example.com").
  - intros r Hr Hn Ht. destruct (Hgen r Hr) as [-> _]. by rewrite Hn, Ht.
  - exists (record_at 0 "R1" 5). split_and!; [|done|done].
    apply elem_of_data. exists 0, "R1", 5. split_and!; [done|lia|lia|done].
Qed.

(** C5: [clusterType] is "Gen1" when the number after the first
    character of the name is at most 10, and "Gen2" otherwise, which
    leaves the numbers 11 to 20. *)
Theorem cluster_type_by_suffix :
  forall r,
    r ∈ data ->
    exists c,
      numeric_suffix (name r) = Some c /\ 1 <= c <= 20 /\
      (c <= 10 -> clusterType r = "Gen1") /\
      (10 < c -> clusterType r = "Gen2").
Proof.
  intros r (idx & rg & c & _ & Hc & ->)%elem_of_data.
  exists c. rewrite name_record_at, numeric_suffix_name.
  split_and!; [done|lia|lia|..]; intros H; cbn.
  - by rewrite (proj2 (Nat.leb_le c 10)).
  - by rewrite (proj2 (Nat.leb_gt c 10)).
Qed.

(** C5 at the record of cluster 11 of region R2. *)
Lemma cluster_type_by_suffix_witness :
  record_at 1 "R2" 11 ∈ data /\
  exists c,
    numeric_suffix (name (record_at 1 "R2" 11)) = Some c /\ 1 <= c <= 20 /\
    (c <= 10 -> clusterType (record_at 1 "R2" 11) = "Gen1") /\
    (10 < c -> clusterType (record_at 1 "R2" 11) = "Gen2").
Proof.
  assert (H : record_at 1 "R2" 11 ∈ data).
  { apply (list_elem_of_lookup_2 data 30). reflexivity. }
  split; [exact H|]. exact (cluster_type_by_suffix _ H).
Defined.

(** C6: the records of one region agree on [type] and on
    [regionalUrlPattern], and each region has twenty of them. *)
Theorem region_shares_tier :
  (forall r1 r2,
      r1 ∈ data -> r2 ∈ data -> region r1 = region r2 ->
      type r1 = type r2 /\
      regionalUrlPattern r1 = regionalUrlPattern r2) /\
  (forall rg, rg ∈ regions -> length (records_of rg) = 20).
Proof.
  split.
  - intros r1 r2 (idx & rg & c & Hrg & _ & ->)%elem_of_data Hr2 Hreg.
    rewrite region_record_at in Hreg.
    destruct (elem_of_data_region r2 idx rg Hr2 Hrg (eq_sym Hreg))
      as (c2 & _ & ->).
    by split.
  - intros rg Hrg.
    rewrite <- (length_map name), (names_of_region rg Hrg).
    by rewrite length_map, length_seq.
Qed.

(** C8: [displayName] equals [name] in every record. *)
Theorem display_name_is_name :
  forall r, r ∈ data -> displayName r = name r.
Proof. by intros r (idx & rg & c & _ & _ & ->)%elem_of_data. Qed.

(** C8 at the last record of [data]. *)
Lemma display_name_is_name_witness :
  record_at 9 "R10" 20 ∈ data /\
  displayName (record_at 9 "R10" 20) = name (record_at 9 "R10" 20).
Proof.
  assert (H : record_at 9 "R10" 20 ∈ data).
  { apply (list_elem_of_lookup_2 data 199). reflexivity. }
  split; [exact H|]. exact (display_name_is_name _ H).
Defined.

End DataProperties.

Section Key.

Lemma cluster_name_inj a b : cluster_name a = cluster_name b -> a = b.
Proof. unfold cluster_name. intros [= H]. by apply str_inj. Qed.

(** C10: the pair of [region] and [name] is a key of [data]: records at
    two different positions differ in one of the two fields; each region
    holds each of the names C1 to C20, and none of them twice. *)
Theorem region_name_key :
  (forall i j ri rj,
      i <> j -> data !! i = Some ri -> data !! j = Some rj ->
      region ri <> region rj \/ name ri <> name rj) /\
  (forall rg,
      rg ∈ regions ->
      NoDup (map name (records_of rg)) /\
      forall c, 1 <= c <= 20 -> cluster_name c ∈ map name (records_of rg)).
Proof.
  split.
  - intros i j ri rj Hij [Hi Hri]%region_of_lookup [Hj Hrj]%region_of_lookup.
    destruct (decide (region ri = region rj)) as [Hreg|Hreg]; [right|by left].
    intros Hname. apply Hij.
    rewrite <- Hreg in Hj.
    assert (Hq : i / 20 = j / 20)
      by (eapply NoDup_lookup; eauto using NoDup_regions).
    rewrite Hri, Hrj, !name_record_at in Hname.
    apply cluster_name_inj in Hname.
    rewrite (Nat.div_mod_eq i 20), (Nat.div_mod_eq j 20). lia.
  - intros rg Hrg. rewrite (names_of_region rg Hrg). split.
    + apply NoDup_fmap_2; [exact cluster_name_inj | apply NoDup_seq].
    + intros c Hc. apply list_elem_of_fmap. exists c. split; [done|].
      apply elem_of_seq. lia.
Qed.

End Key.

(** ** Runs of the script *)

Section Strings.

Lemma append_cons c s t : String c s +:+ t = String c (s +:+ t).
Proof. reflexivity. Qed.

Lemma append_nil_l s : EmptyString +:+ s = s.
Proof. reflexivity. Qed.

Lemma append_nil_r s : s +:+ EmptyString = s.
Proof. induction s as [|c s IH]; [done|by rewrite append_cons, IH]. Qed.

Lemma append_assoc s1 s2 s3 : (s1 +:+ s2) +:+ s3 = s1 +:+ (s2 +:+ s3).
Proof. induction s1 as [|c s1 IH]; [done|by rewrite !append_cons, IH]. Qed.

Lemma length_append s1 s2 :
  String.length (s1 +:+ s2) = String.length s1 + String.length s2.
Proof.
  induction s1 as [|c s1 IH]; [done|]. rewrite append_cons. simpl.
  by rewrite IH.
Qed.

Lemma append_newline_neq s : s <> s +:+ newline.
Proof.
  intros H. apply (f_equal String.length) in H.
  rewrite length_append in H. simpl in H. lia.
Qed.

(** [''.join] of a list of chunks, one chunk at a time. *)
Lemma join_cons s l :
  String.concat EmptyString (s :: l) = s +:+ String.concat EmptyString l.
Proof. destruct l; [symmetry; apply append_nil_r|reflexivity]. Qed.

End Strings.

Section Runs.

Variable faults : nat -> option nat.

Lemma outcomes_from_app n new1 new2 :
  outcomes_from faults n new1 -> outcomes_from faults (n + length new1) new2 ->
  outcomes_from faults n (new1 ++ new2).
Proof.
  intros H1 H2 i c o Hi.
  apply lookup_app_Some in Hi as [Hi|[Hlen Hi]].
  - by apply (H1 i c).
  - rewrite (H2 _ c o Hi). f_equal. lia.
Qed.

Lemma sound_ret {A} P (x : A) : sound faults P (IO.ret x).
Proof.
  intros w w' r [= <- <-]. exists []. rewrite app_nil_r.
  split_and!; [done|constructor|by intros i c o|constructor].
Qed.

Lemma sound_bind {A B} P (m : IO.IO A) (k : A -> IO.IO B) :
  sound faults P m -> (forall x, sound faults P (k x)) -> sound faults P (IO.bind m k).
Proof.
  intros Hm Hk w w' r. unfold IO.bind.
  destruct (m w) as [w1 [e|x]] eqn:Hmw.
  - intros [= <- <-]. exact (Hm w w1 (inl e) Hmw).
  - intros Hkw.
    destruct (Hm w w1 (inr x) Hmw) as (new1 & Hh1 & HP1 & Ho1 & Hr1).
    destruct (Hk x w1 w' r Hkw) as (new2 & Hh2 & HP2 & Ho2 & Hr2).
    exists (new1 ++ new2). split_and!.
    + by rewrite Hh2, Hh1, app_assoc.
    + by apply Forall_app.
    + apply outcomes_from_app; [done|].
      by rewrite Hh1, length_app in Ho2.
    + destruct r as [e|y].
      * destruct Hr2 as (c & errno & Hin & ->).
        exists c, errno. split; [|done]. apply elem_of_app. by right.
      * by apply Forall_app.
Qed.

Lemma sound_os_call P c effect :
  P c -> (forall w, history (effect w) = history w) ->
  sound faults P (os_call faults c effect).
Proof.
  intros HP Heff w w' r H. unfold os_call in H.
  exists [(c, faults (length (history w)))].
  assert (Ho : outcomes_from faults (length (history w))
                 [(c, faults (length (history w)))]).
  { intros [|i] c' o [=]; subst. by rewrite Nat.add_0_r. }
  destruct (faults (length (history w))) as [errno|] eqn:Hf;
    injection H as <- <-.
  - split_and!; [done|by repeat constructor|done|].
    exists c, errno. split; [|done]. apply list_elem_of_singleton. done.
  - rewrite Heff. split_and!; [done|by repeat constructor|done|].
    by repeat constructor.
Qed.

Lemma sound_for_each {A} P (l : list A) (body : A -> IO.IO unit) :
  (forall x, sound faults P (body x)) -> sound faults P (for_each l body).
Proof.
  intros Hbody. induction l as [|x l IH]; simpl.
  - apply sound_ret.
  - apply sound_bind; [apply Hbody|]. intros _. exact IH.
Qed.

Lemma sound_with_open P path (body : string -> IO.IO unit) :
  P (Open path) -> P (Close path) -> sound faults P (body path) ->
  sound faults P (with_open faults path body).
Proof.
  intros Hopen Hclose Hbody.
  assert (Ho : sound faults P (open_w faults path)).
  { apply sound_bind; [by apply sound_os_call|]. intros _. apply sound_ret. }
  assert (Hc : forall f, f = path -> sound faults P (close faults f)).
  { intros f ->. by apply sound_os_call. }
  intros w w' r. unfold with_open.
  destruct (open_w faults path w) as [w1 [e|f]] eqn:Hw1.
  { intros [= <- <-]. exact (Ho w w1 (inl e) Hw1). }
  assert (f = path) as ->.
  { unfold open_w, IO.bind, IO.ret in Hw1.
    destruct (os_call _ _ _ w) as [? [?|?]]; congruence. }
  destruct (Ho w w1 (inr path) Hw1) as (new1 & Hh1 & HP1 & Ho1 & Hr1).
  destruct (body path w1) as [w2 [e|[]]] eqn:Hw2.
  - destruct (Hbody w1 w2 (inl e) Hw2)
      as (new2 & Hh2 & HP2 & Ho2 & c & errno & Hin & ->).
    destruct (close faults path w2) as [w3 [e'|[]]] eqn:Hw3;
      intros [= <- <-];
      destruct (Hc path eq_refl w2 w3 _ Hw3) as (new3 & Hh3 & HP3 & Ho3 & Hr3);
      exists (new1 ++ new2 ++ new3);
      (split_and!;
       [ by rewrite Hh3, Hh2, Hh1, <- !app_assoc
       | by rewrite !Forall_app
       | apply outcomes_from_app; [done|];
         apply outcomes_from_app; [by rewrite Hh1, length_app in Ho2|];
         by rewrite Hh2, Hh1, !length_app in Ho3
       | ]).
    + destruct Hr3 as (c' & errno' & Hin' & ->). exists c', errno'.
      split; [|done]. rewrite !elem_of_app. auto.
    + exists c, errno. split; [|done]. rewrite !elem_of_app. auto.
  - intros Hw3.
    destruct (Hbody w1 w2 (inr tt) Hw2) as (new2 & Hh2 & HP2 & Ho2 & Hr2).
    destruct (Hc path eq_refl w2 w' r Hw3) as (new3 & Hh3 & HP3 & Ho3 & Hr3).
    exists (new1 ++ new2 ++ new3). split_and!.
    + by rewrite Hh3, Hh2, Hh1, <- !app_assoc.
    + by rewrite !Forall_app.
    + apply outcomes_from_app; [done|].
      apply outcomes_from_app; [by rewrite Hh1, length_app in Ho2|].
      by rewrite Hh2, Hh1, !length_app in Ho3.
    + destruct r as [e|u].
      * destruct Hr3 as (c' & errno' & Hin' & ->). exists c', errno'.
        split; [|done]. rewrite !elem_of_app. auto.
      * by rewrite !Forall_app.
Qed.

(** Every run of the script is sound for the calls on standard output
    and on [env.json]. *)
Lemma sound_main : sound faults script_call (main faults).
Proof.
  unfold main. intros w w' r. unfold IO.bind at 1, IO.lift.
  rewrite build_data_ok. revert w w' r.
  apply sound_bind; [|intros _; apply sound_with_open].
  - apply sound_bind; [|intros _]; apply sound_os_call; (done || by left).
  - by right.
  - by right.
  - apply sound_for_each. intros chunk. apply sound_os_call; [by right|done].
Qed.

(** *** Runs in which nothing raises *)

Lemma bind_inr {A B} (m : IO.IO A) (k : A -> IO.IO B) w w' (y : B) :
  IO.bind m k w = (w', inr y) ->
  exists w1 x, m w = (w1, inr x) /\ k x w1 = (w', inr y).
Proof.
  unfold IO.bind. destruct (m w) as [w1 [e|x]]; [done|]. by exists w1, x.
Qed.

Lemma os_call_inr c effect w w' u :
  os_call faults c effect w = (w', inr u) ->
  w' = effect (mkWorld (stdout w) (fs w) (history w ++ [(c, None)])).
Proof.
  unfold os_call. destruct (faults (length (history w))); [done|].
  by intros [= <-].
Qed.

Lemma with_open_inr path body w w' u :
  with_open faults path body w = (w', inr u) ->
  exists w1 w2,
    open_w faults path w = (w1, inr path) /\
    body path w1 = (w2, inr tt) /\
    close faults path w2 = (w', inr u).
Proof.
  unfold with_open.
  destruct (open_w faults path w) as [w1 [e|f]] eqn:Hw1; [done|].
  assert (f = path) as ->.
  { unfold open_w, IO.bind, IO.ret in Hw1.
    destruct (os_call _ _ _ w) as [? [?|?]]; congruence. }
  destruct (body path w1) as [w2 [e|[]]] eqn:Hw2.
  - by destruct (close faults path w2) as [w3 [e'|[]]].
  - intros H. exists w1, w2. split_and!; [reflexivity|exact Hw2|exact H].
Qed.

(** The writes of [json.dump], when all succeed: the file grows by the
    chunks joined. *)
Lemma writes_inr f chunks : forall w w' s,
  fs w !! f = Some s ->
  for_each chunks (write faults f) w = (w', inr tt) ->
  w' = mkWorld (stdout w)
               (<[f := s +:+ String.concat EmptyString chunks]> (fs w))
               (history w ++ map (fun t => (Write f t, None)) chunks).
Proof.
  induction chunks as [|x l IH]; intros w w' s Hs H.
  - injection H as <-. destruct w as [out files h]; simpl in *.
    by rewrite append_nil_r, insert_id, app_nil_r.
  - simpl in H. apply bind_inr in H as (w1 & [] & Hx & H).
    apply os_call_inr in Hx. cbn [stdout fs history] in Hx.
    rewrite Hs in Hx. change (default EmptyString (Some s)) with s in Hx.
    subst w1.
    apply (IH _ _ (s +:+ x)) in H; [|apply lookup_insert_eq].
    rewrite H. cbn [stdout fs history].
    rewrite insert_insert_eq, append_assoc, <- join_cons, <- app_assoc.
    done.
Qed.

(** The world after a run that ends normally. *)
Lemma main_inr w w' :
  main faults w = (w', inr tt) ->
  w' = mkWorld ((stdout w +:+ rendered) +:+ newline)
               (<["env.json" := rendered]> (fs w))
               (history w ++ map (fun c => (c, None)) script_calls).
Proof.
  intros H. unfold main in H.
  apply bind_inr in H as (w0 & d & Hd & H).
  unfold IO.lift in Hd. rewrite build_data_ok in Hd. injection Hd as <- <-.
  apply bind_inr in H as (w1 & [] & Hp & H).
  apply bind_inr in Hp as (w0 & [] & Hp1 & Hp2).
  apply os_call_inr in Hp1. apply os_call_inr in Hp2. subst w0 w1.
  apply with_open_inr in H as (w1 & w2 & Ho & Hb & Hc).
  apply bind_inr in Ho as (w0 & [] & Ho & [= <-]).
  apply os_call_inr in Ho. apply os_call_inr in Hc. subst w0 w'.
  apply (writes_inr _ _ _ _ EmptyString) in Hb; [|apply lookup_insert_eq].
  subst w2. cbn [stdout fs history].
  rewrite insert_insert_eq. unfold script_calls.
  rewrite !map_app, map_map, <- !app_assoc. done.
Qed.

(** A run raises only if one of its calls raised. *)
Lemma main_total w :
  (forall k, faults k = None) -> exists w', main faults w = (w', inr tt).
Proof.
  intros Hf. destruct (main faults w) as [w' [e|[]]] eqn:H; [|by exists w'].
  destruct (sound_main w w' (inl e) H)
    as (new & _ & _ & Ho & c & errno & Hin & _).
  apply list_elem_of_lookup in Hin as [i Hi].
  apply Ho in Hi. by rewrite Hf in Hi.
Qed.

End Runs.

(** ** Properties of the runs *)

Section RunProperties.

Lemma script_calls_split :
  exists rest,
    script_calls = [StdoutWrite rendered; StdoutWrite newline] ++ rest /\
    Forall (on_file "env.json") rest.
Proof.
  eexists. split; [reflexivity|].
  constructor; [done|]. apply Forall_app. split.
  - apply List.Forall_map, Forall_forall. by intros t _.
  - by repeat constructor.
Qed.

(** In a run without exception the writes to standard output come
    before every call on [env.json]. *)
Lemma stdout_first i j ci cj :
  script_calls !! i = Some ci -> script_calls !! j = Some cj ->
  is_stdout ci -> on_file "env.json" cj -> i < j.
Proof.
  destruct script_calls_split as (rest & -> & Hrest).
  intros Hi Hj Hci Hcj.
  assert (i < 2).
  { destruct (decide (i < 2)) as [|Hge]; [done|].
    rewrite lookup_app_r in Hi by (simpl; lia).
    eapply Forall_lookup_1 in Hrest; [|exact Hi]. by destruct ci. }
  assert (2 <= j).
  { destruct j as [|[|j]]; [..|lia]; injection Hj as <-; by destruct Hcj. }
  lia.
Qed.

(** C2, the claim as written fails: after a run from the initial world
    in which no call raises, the contents of [env.json] are not the text
    standard output received. *)
Lemma file_is_not_stdout_text :
  exists w',
    main no_faults initial_world = (w', inr tt) /\
    fs w' !! "env.json" <> Some (stdout w').
Proof.
  destruct (main_total no_faults initial_world (fun k => eq_refl))
    as [w' H].
  exists w'. split; [exact H|].
  rewrite (main_inr _ _ _ H). cbn [stdout fs].
  rewrite lookup_insert_eq. intros Heq%(inj Some).
  rewrite append_nil_l in Heq. exact (append_newline_neq _ Heq).
Qed.

(** C2, amended: after a run that ends normally [env.json] holds the
    rendered text, standard output has received that text followed by one
    line end, and in the history of calls every write to standard output
    comes before every call on [env.json]. *)
Theorem stdout_is_file_then_newline faults w w' :
  main faults w = (w', inr tt) ->
  exists text new,
    text = Json.dumps 2 data /\
    fs w' !! "env.json" = Some text /\
    stdout w' = (stdout w +:+ text) +:+ newline /\
    history w' = history w ++ map returned new /\
    new !! 0 = Some (StdoutWrite text) /\
    new !! 1 = Some (StdoutWrite newline) /\
    new !! 2 = Some (Open "env.json") /\
    (forall i j ci cj,
        new !! i = Some ci -> new !! j = Some cj ->
        is_stdout ci -> on_file "env.json" cj -> i < j).
Proof.
  intros H. rewrite (main_inr _ _ _ H). cbn [stdout fs history].
  exists rendered, script_calls. split_and!; try done.
  - apply lookup_insert_eq.
  - apply stdout_first.
Qed.

(** The amended C2 at the run from the initial world in which no call
    raises. *)
Lemma stdout_is_file_then_newline_witness :
  exists w',
    main no_faults initial_world = (w', inr tt) /\
    exists text new,
      text = Json.dumps 2 data /\
      fs w' !! "env.json" = Some text /\
      stdout w' = (stdout initial_world +:+ text) +:+ newline /\
      history w' = history initial_world ++ map returned new /\
      new !! 0 = Some (StdoutWrite text) /\
      new !! 1 = Some (StdoutWrite newline) /\
      new !! 2 = Some (Open "env.json") /\
      (forall i j ci cj,
          new !! i = Some ci -> new !! j = Some cj ->
          is_stdout ci -> on_file "env.json" cj -> i < j).
Proof.
  destruct (main_total no_faults initial_world (fun k => eq_refl))
    as [w' H].
  exists w'. split; [exact H|].
  exact (stdout_is_file_then_newline no_faults initial_world w' H).
Defined.

(** C7: two runs that end normally, whatever the worlds they start in
    and whichever calls would have raised, send the same text to standard
    output and leave the same contents in [env.json]; a second run right
    after the first leaves the files as the first left them. *)
Theorem runs_agree fa fb wa wb wa' wb' :
  main fa wa = (wa', inr tt) -> main fb wb = (wb', inr tt) ->
  exists text,
    stdout wa' = stdout wa +:+ text /\
    stdout wb' = stdout wb +:+ text /\
    fs wa' !! "env.json" = Some rendered /\
    fs wb' !! "env.json" = Some rendered /\
    drop (length (history wa)) (history wa')
    = drop (length (history wb)) (history wb') /\
    (wb = wa' -> fs wb' = fs wa').
Proof.
  intros Ha Hb.
  pose proof (main_inr _ _ _ Ha) as Ea. pose proof (main_inr _ _ _ Hb) as Eb.
  exists (rendered +:+ newline). split_and!.
  - rewrite Ea. cbn [stdout]. apply append_assoc.
  - rewrite Eb. cbn [stdout]. apply append_assoc.
  - rewrite Ea. apply lookup_insert_eq.
  - rewrite Eb. apply lookup_insert_eq.
  - rewrite Ea, Eb. cbn [history]. by rewrite !drop_app_length.
  - intros Hw. rewrite Eb, Hw. cbn [fs]. apply insert_id.
    rewrite Ea. apply lookup_insert_eq.
Qed.

(** C7 at two runs in succession from the initial world. *)
Lemma runs_agree_witness :
  exists wa' wb',
    main no_faults initial_world = (wa', inr tt) /\
    main no_faults wa' = (wb', inr tt) /\
    exists text,
      stdout wa' = stdout initial_world +:+ text /\
      stdout wb' = stdout wa' +:+ text /\
      fs wa' !! "env.json" = Some rendered /\
      fs wb' !! "env.json" = Some rendered /\
      drop (length (history initial_world)) (history wa')
      = drop (length (history wa')) (history wb') /\
      (wa' = wa' -> fs wb' = fs wa').
Proof.
  destruct (main_total no_faults initial_world (fun k => eq_refl))
    as [wa' Ha].
  destruct (main_total no_faults wa' (fun k => eq_refl)) as [wb' Hb].
  exists wa', wb'. split_and!; [exact Ha|exact Hb|].
  exact (runs_agree no_faults no_faults initial_world wa' wa' wb' Ha Hb).
Defined.




End RunProperties.

(** ** Runs in which a call raises *)

Section Failures.

Variable faults : nat -> option nat.

Lemma bind_cases {A B} (m : IO.IO A) (k : A -> IO.IO B) w w' (r : Py.exn + B) :
  IO.bind m k w = (w', r) ->
  (exists e, m w = (w', inl e) /\ r = inl e) \/
  (exists w1 x, m w = (w1, inr x) /\ k x w1 = (w', r)).
Proof.
  unfold IO.bind. destruct (m w) as [w1 [e|x]].
  - intros [= <- <-]. left. by exists e.
  - intros H. right. by exists w1, x.
Qed.

Lemma os_call_cases c effect w w' r :
  os_call faults c effect w = (w', r) ->
  (exists e,
      faults (length (history w)) = Some e /\
      w' = mkWorld (stdout w) (fs w) (history w ++ [(c, Some e)]) /\
      r = inl (Py.OSError e)) \/
  (faults (length (history w)) = None /\
   w' = effect (mkWorld (stdout w) (fs w) (history w ++ [(c, None)])) /\
   r = inr tt).
Proof.
  unfold os_call. destruct (faults (length (history w))) as [e|].
  - intros [= <- <-]. left. by exists e.
  - intros [= <- <-]. by right.
Qed.

(** The writes of [json.dump]: the chunks are written in order until one
    write raises; the file then holds what the writes before it added. *)
Lemma writes_cases f l : forall w w' r s,
  fs w !! f = Some s ->
  for_each l (write faults f) w = (w', r) ->
  exists k,
    k <= length l /\
    (forall i, i < k -> faults (length (history w) + i) = None) /\
    stdout w' = stdout w /\
    fs w' = <[f := s +:+ String.concat EmptyString (take k l)]> (fs w) /\
    ((r = inr tt /\ k = length l /\
      history w'
      = history w ++ map (fun t => returned (Write f t)) l) \/
     (exists t e,
         l !! k = Some t /\
         faults (length (history w) + k) = Some e /\
         r = inl (Py.OSError e) /\
         history w'
         = history w ++ map (fun t => returned (Write f t)) (take k l)
             ++ [(Write f t, Some e)])).
Proof.
  induction l as [|x l IH]; intros w w' r s Hs H.
  - injection H as <- <-. exists 0. split_and!; [done|lia|done| |].
    + cbn. by rewrite append_nil_r, insert_id.
    + left. by rewrite app_nil_r.
  - simpl in H. apply bind_cases in H as [(e & Hx & ->)|(w1 & [] & Hx & H)].
    + apply os_call_cases in Hx as [(e' & Hf & -> & [= ->])|(_ & _ & [=])].
      exists 0. split_and!; [lia|lia|done| |].
      * cbn. by rewrite append_nil_r, insert_id.
      * right. exists x, e'. rewrite Nat.add_0_r. by split_and!.
    + apply os_call_cases in Hx as [(e' & _ & _ & [=])|(Hf & Hw1 & _)].
      cbn [stdout fs history] in Hw1. rewrite Hs in Hw1.
      change (default EmptyString (Some s)) with s in Hw1. subst w1.
      apply (IH _ _ _ (s +:+ x)) in H; [|apply lookup_insert_eq].
      destruct H as (k & Hk & Hnone & Hout & Hfs & Hr).
      cbn [stdout fs history] in *. rewrite length_app in *. simpl in *.
      exists (S k). split_and!; [lia| |done| |].
      * intros [|i] Hi; [by rewrite Nat.add_0_r|].
        rewrite <- (Hnone i) by lia. f_equal. lia.
      * rewrite Hfs, insert_insert_eq. cbn [take].
        by rewrite join_cons, append_assoc.
      * destruct Hr as [(-> & -> & Hh)|(t & e & Ht & Hf' & -> & Hh)].
        -- left. split_and!; [done|done|]. by rewrite Hh, <- app_assoc.
        -- right. exists t, e. split_and!; [done| |done|].
           ++ rewrite <- Hf'. f_equal. lia.
           ++ by rewrite Hh, <- app_assoc.
Qed.

(** The [with] statement: either [open] raises and nothing else is done,
    or the body runs and the file is closed whatever the body did. *)
Lemma with_open_cases path body w w' r :
  with_open faults path body w = (w', r) ->
  (exists e,
      faults (length (history w)) = Some e /\
      w' = mkWorld (stdout w) (fs w) (history w ++ [(Open path, Some e)]) /\
      r = inl (Py.OSError e)) \/
  (faults (length (history w)) = None /\
   exists w2 rb oc,
     body path (mkWorld (stdout w) (<[path := EmptyString]> (fs w))
                        (history w ++ [(Open path, None)])) = (w2, rb) /\
     oc = faults (length (history w2)) /\
     w' = mkWorld (stdout w2) (fs w2) (history w2 ++ [(Close path, oc)]) /\
     r = match oc, rb with
         | Some e, _ => inl (Py.OSError e)
         | None, inl e => inl e
         | None, inr _ => inr tt
         end).
Proof.
  unfold with_open, open_w. intros H.
  destruct (IO.bind _ _ w) as [w1 [e|f]] eqn:Ho.
  - injection H as <- <-. left.
    apply bind_cases in Ho as [(e' & Ho & [= ->])|(? & ? & _ & [=])].
    apply os_call_cases in Ho as [(e & Hf & -> & [= ->])|(_ & _ & [=])].
    by exists e.
  - right.
    apply bind_cases in Ho as [(? & _ & [=])|(w0 & [] & Ho & [= <- <-])].
    apply os_call_cases in Ho as [(? & _ & _ & [=])|(Hf & -> & _)].
    split; [done|]. cbn [stdout fs history] in H |- *.
    destruct (body path _) as [w2 rb] eqn:Hb.
    exists w2, rb, (faults (length (history w2))). split; [done|].
    split; [done|].
    destruct rb as [e|[]]; unfold close, os_call in H;
      destruct (faults (length (history w2))) as [e'|]; by injection H as <- <-.
Qed.

(** Every run has one of three shapes: one of the first three calls (the
    two writes to standard output, [open]) raises and ends the run; or the
    file is opened, a write of a chunk raises, and the file is closed; or all
    chunks are written and the file is closed. *)
Lemma main_cases w w' r :
  main faults w = (w', r) ->
  (exists k c e,
      k < 3 /\
      [StdoutWrite rendered; StdoutWrite newline; Open "env.json"] !! k
      = Some c /\
      (forall i, i < k -> faults (length (history w) + i) = None) /\
      faults (length (history w) + k) = Some e /\
      r = inl (Py.OSError e) /\
      fs w' = fs w /\
      stdout w' = stdout w +:+ printed k /\
      history w' = history w ++ take k opening ++ [(c, Some e)]) \/
  ((forall i, i < 3 -> faults (length (history w) + i) = None) /\
   stdout w' = stdout w +:+ printed 2 /\
   exists k oc,
     k <= length chunks /\
     (forall i, i < k -> faults (length (history w) + 3 + i) = None) /\
     fs w'
     = <["env.json" := String.concat EmptyString (take k chunks)]> (fs w) /\
     ((exists t e,
          chunks !! k = Some t /\
          faults (length (history w) + 3 + k) = Some e /\
          oc = faults (length (history w) + 3 + k + 1) /\
          r = inl (Py.OSError (default e oc)) /\
          history w'
          = history w ++ opening ++ written (take k chunks)
              ++ [(Write "env.json" t, Some e); (Close "env.json", oc)]) \/
      (k = length chunks /\
       oc = faults (length (history w) + 3 + k) /\
       r = match oc with
           | Some e => inl (Py.OSError e)
           | None => inr tt
           end /\
       history w'
       = history w ++ opening ++ written chunks
           ++ [(Close "env.json", oc)]))).
Proof.
  intros H. unfold main in H.
  apply bind_cases in H as [(e & Hd & _)|(w0 & d & Hd & H)];
    unfold IO.lift in Hd; rewrite build_data_ok in Hd; [done|].
  injection Hd as <- <-. fold rendered in H.
  apply bind_cases in H as [(e & Hp & ->)|(w2 & [] & Hp & H)].
  - (* [print] raises *)
    left.
    apply bind_cases in Hp as [(e1 & H1 & [= ->])|(w1 & [] & H1 & H2)].
    + apply os_call_cases in H1 as [(e & Hf & -> & [= ->])|(_ & _ & [=])].
      exists 0, (StdoutWrite rendered), e. rewrite Nat.add_0_r.
      split_and!; [lia|done|lia|done|done|done| |done].
      cbn. by rewrite append_nil_r.
    + apply os_call_cases in H1 as [(? & _ & _ & [=])|(Hf0 & -> & _)].
      apply os_call_cases in H2 as [(e' & Hf1 & -> & [= ->])|(_ & _ & [=])].
      cbn [stdout fs history] in *. rewrite length_app in Hf1. cbn [length] in Hf1.
      exists 1, (StdoutWrite newline), e'.
      split_and!; [lia|done| |done|done|done|done|by rewrite <- app_assoc].
      intros i Hi. replace i with 0 by lia. by rewrite Nat.add_0_r.
  - (* [print] returns *)
    apply bind_cases in Hp as [(? & _ & [=])|(w1 & [] & H1 & H2)].
    apply os_call_cases in H1 as [(? & _ & _ & [=])|(Hf0 & -> & _)].
    apply os_call_cases in H2 as [(? & _ & _ & [=])|(Hf1 & -> & _)].
    cbn [stdout fs history] in *. rewrite length_app in Hf1. cbn [length] in Hf1.
    apply with_open_cases in H
      as [(e & Hf2 & -> & ->)|(Hf2 & w3 & rb & oc & Hb & Hoc & -> & ->)];
      cbn [stdout fs history] in *; rewrite !length_app in Hf2; cbn [length] in Hf2.
    + left. exists 2, (Open "env.json"), e.
      replace (length (history w) + 2) with (length (history w) + 1 + 1)
        by lia.
      split_and!; [lia|done| |done|done|done|by rewrite append_assoc|].
      * intros [|[|i]] Hi; [by rewrite Nat.add_0_r|done|lia].
      * by rewrite <- !app_assoc.
    + right.
      assert (Hearly : forall i, i < 3 ->
                faults (length (history w) + i) = None).
      { intros [|[|[|i]]] Hi; [by rewrite Nat.add_0_r|done| |lia].
        rewrite <- Hf2. f_equal. lia. }
      split_and!; [done| |].
      * unfold json_dump in Hb.
        apply (writes_cases _ _ _ _ _ EmptyString) in Hb
          ; [|apply lookup_insert_eq].
        destruct Hb as (k & _ & _ & -> & _). cbn [stdout]. apply append_assoc.
      * unfold json_dump in Hb. fold chunks in Hb.
        apply (writes_cases _ _ _ _ _ EmptyString) in Hb
          ; [|apply lookup_insert_eq].
        destruct Hb as (k & Hk & Hnone & _ & Hfs & Hr).
        cbn [stdout fs history] in *.
        rewrite !length_app in Hnone, Hr. cbn [length] in Hnone, Hr.
        exists k, oc. split_and!; [done| | |].
        -- intros i Hi. rewrite <- (Hnone i Hi). f_equal. lia.
        -- by rewrite Hfs, insert_insert_eq, append_nil_l.
        -- destruct Hr as [(-> & -> & Hh)|(t & e & Ht & Hf & -> & Hh)].
           ++ right. rewrite Hh in Hoc |- *.
              rewrite !length_app, length_map in Hoc. cbn [length] in Hoc.
              split_and!; [done| |by destruct oc|].
              ** rewrite Hoc. f_equal. lia.
              ** by rewrite <- !app_assoc.
           ++ left. exists t, e. rewrite Hh in Hoc |- *.
              rewrite !length_app, length_map, length_take in Hoc.
              cbn [length] in Hoc.
              split_and!; [done| | |by destruct oc|].
              ** rewrite <- Hf. f_equal. lia.
              ** rewrite Hoc. f_equal. lia.
              ** by rewrite <- !app_assoc.
Qed.

End Failures.

(** ** What a run does to files and to standard output *)

Section RunEffects.

Lemma join_chunks : String.concat EmptyString chunks = rendered.
Proof. reflexivity. Qed.

Lemma take_all_chunks : take (length chunks) chunks = chunks.
Proof. apply firstn_all. Qed.

Lemma run_of (faults : nat -> option nat) (w : World) :
  main faults w = ((main faults w).1, (main faults w).2).
Proof. apply surjective_pairing. Qed.

(** X1: whatever happens in a run, no file other than [env.json] is
    created, changed or removed. *)
Theorem other_files_untouched faults w w' r path :
  main faults w = (w', r) -> path <> "env.json" ->
  fs w' !! path = fs w !! path.
Proof.
  intros H Hpath.
  destruct (main_cases faults w w' r H)
    as [(k & c & e & _ & _ & _ & _ & _ & -> & _)
       |(_ & _ & k & oc & _ & _ & -> & _)]; [done|].
  by apply lookup_insert_ne.
Qed.

(** X1 at a run from [used_world] in which a write to the file raises. *)
Lemma other_files_untouched_witness :
  fs (main broken_write used_world).1 !! "notes.txt"
  = fs used_world !! "notes.txt".
Proof.
  apply (other_files_untouched broken_write used_world _ _ "notes.txt"
           (run_of _ _)).
  discriminate.
Defined.



Lemma writes_of_app l1 l2 : writes_of (l1 ++ l2) = writes_of l1 ++ writes_of l2.
Proof.
  induction l1 as [|[c o] l1 IH]; [done|].
  rewrite <- app_comm_cons. destruct c; cbn [writes_of]; by rewrite IH.
Qed.

Lemma writes_of_written l :
  writes_of (written l) = map (fun t => (t, None)) l.
Proof.
  unfold written, returned.
  induction l as [|t l IH]; [done|]. cbn [map writes_of]. by rewrite IH.
Qed.

Lemma writes_of_opening k : writes_of (take k opening) = [].
Proof.
  unfold opening, returned. destruct k as [|[|[|[|k]]]]; reflexivity.
Qed.

Lemma writes_of_all_opening : writes_of opening = [].
Proof. exact (writes_of_opening 3). Qed.

Lemma writes_of_early k c e :
  [StdoutWrite rendered; StdoutWrite newline; Open "env.json"] !! k = Some c ->
  writes_of [(c, Some e)] = [].
Proof. destruct k as [|[|[|k]]]; intros [= <-]; reflexivity. Qed.

(** X3: [json.dump] hands the chunks of the encoder to [f.write] in
    their order, without gap or repetition: in every run the texts written
    to [env.json] are a beginning of the list of chunks, each of these
    writes returned, a write that raised carries the next chunk and is the
    last one, and a run that ends normally has written all chunks, which
    joined are the rendered text. *)
Theorem writes_follow_the_chunks faults w w' r :
  main faults w = (w', r) ->
  exists new k last,
    history w' = history w ++ new /\
    k <= length chunks /\
    writes_of new = map (fun t => (t, None)) (take k chunks) ++ last /\
    (last = [] \/
     exists t e, chunks !! k = Some t /\ last = [(t, Some e)]) /\
    (r = inr tt ->
     last = [] /\ k = length chunks /\
     String.concat EmptyString (map fst (writes_of new)) = rendered).
Proof.
  intros H.
  destruct (main_cases faults w w' r H)
    as [(k0 & c & e & _ & Hc & _ & _ & -> & _ & _ & Hh)
       |(_ & _ & k & oc & Hk & _ & _ & Hr)].
  - exists (take k0 opening ++ [(c, Some e)]), 0, [].
    rewrite writes_of_app, writes_of_opening, (writes_of_early k0 c e Hc).
    split_and!; [done|lia|done|by left|done].
  - destruct Hr as [(t & e & Ht & _ & _ & -> & Hh)|(-> & _ & Hr & Hh)].
    + exists (opening ++ written (take k chunks)
                ++ [(Write "env.json" t, Some e); (Close "env.json", oc)]),
             k, [(t, Some e)].
      rewrite !writes_of_app, writes_of_all_opening, writes_of_written.
      split_and!; [done|done|done| |done].
      right. by exists t, e.
    + exists (opening ++ written chunks ++ [(Close "env.json", oc)]),
             (length chunks), [].
      rewrite !writes_of_app, writes_of_all_opening, writes_of_written.
      rewrite take_all_chunks.
      split_and!; [done|done|done|by left|].
      intros _. split_and!; [done|done|].
      cbn [app writes_of]. rewrite app_nil_r, map_map, map_id.
      apply join_chunks.
Qed.

(** X3 at a run from [used_world] in which the third write raises. *)
Lemma writes_follow_the_chunks_witness :
  exists new k last,
    history (main broken_write used_world).1 = history used_world ++ new /\
    k <= length chunks /\
    writes_of new = map (fun t => (t, None)) (take k chunks) ++ last /\
    (last = [] \/
     exists t e, chunks !! k = Some t /\ last = [(t, Some e)]) /\
    ((main broken_write used_world).2 = inr tt ->
     last = [] /\ k = length chunks /\
     String.concat EmptyString (map fst (writes_of new)) = rendered).
Proof.
  exact (writes_follow_the_chunks broken_write used_world _ _ (run_of _ _)).
Defined.

(** X7: a run ends normally exactly when none of its own calls raises:
    the two writes to standard output, [open], one write for each chunk and
    [close]; what later calls would do does not matter. *)
Theorem normal_end_iff_no_call_raises faults w w' r :
  main faults w = (w', r) ->
  r = inr tt <->
  forall i, i < length chunks + 4 -> faults (length (history w) + i) = None.
Proof.
  intros H.
  destruct (main_cases faults w w' r H)
    as [(k & c & e & Hk & _ & _ & Hf & -> & _)
       |(Hopen & _ & k & oc & Hk & Hnone & _ & Hr)].
  { split; [done|]. intros Hall. rewrite Hall in Hf by lia. done. }
  destruct Hr as [(t & e & Ht & Hf & _ & -> & _)|(-> & -> & -> & _)].
  - split; [done|]. intros Hall. apply lookup_lt_Some in Ht.
    rewrite <- Nat.add_assoc, Hall in Hf by lia. done.
  - destruct (faults (length (history w) + 3 + length chunks)) as [e|] eqn:Hc.
    + split; [done|]. intros Hall.
      rewrite <- Nat.add_assoc, Hall in Hc by lia. done.
    + split; [|done]. intros _ i Hi.
      destruct (decide (i < 3)) as [|Hge]; [by apply Hopen|].
      destruct (decide (i = 3 + length chunks)) as [->|Hne].
      * by rewrite Nat.add_assoc.
      * replace i with (3 + (i - 3)) by lia. rewrite Nat.add_assoc.
        apply Hnone. lia.
Qed.

(** X7 at the run from the initial world in which no call raises. *)
Lemma normal_end_iff_no_call_raises_witness :
  (main no_faults initial_world).2 = inr tt <->
  forall i, i < length chunks + 4 ->
            no_faults (length (history initial_world) + i) = None.
Proof.
  exact (normal_end_iff_no_call_raises no_faults initial_world _ _
           (run_of _ _)).
Defined.




Lemma quiet_opening : quiet opening.
Proof. unfold opening. by repeat constructor. Qed.

Lemma quiet_written l : quiet (written l).
Proof. apply List.Forall_map, Forall_forall. by intros t _. Qed.

Lemma unclosed_opening : unclosed opening.
Proof. unfold opening. by repeat constructor. Qed.

Lemma unclosed_written l : unclosed (written l).
Proof. apply List.Forall_map, Forall_forall. by intros t _. Qed.

Lemma unclosed_early k c :
  [StdoutWrite rendered; StdoutWrite newline; Open "env.json"] !! k = Some c ->
  c <> Close "env.json".
Proof. destruct k as [|[|[|k]]]; intros [= <-]; discriminate. Qed.

Lemma open_in_opening : (Open "env.json", None) ∈ opening.
Proof.
  unfold opening, returned. cbn [map]. rewrite !elem_of_cons. auto.
Qed.

(** An entry that raised lies after every quiet beginning. *)
Lemma raised_after_quiet pre tail i c e :
  quiet pre -> (pre ++ tail) !! i = Some (c, Some e) ->
  length pre <= i /\ tail !! (i - length pre) = Some (c, Some e).
Proof.
  intros Hq [Hi|[Hlen Hi]]%lookup_app_Some; [|done].
  eapply Forall_lookup_1 in Hq; [|exact Hi]. cbn in Hq. done.
Qed.

(** X4: a run in which [open] returned closes [env.json] exactly once,
    as its last call, whether the writes raised or not; a run in which
    [open] did not return never closes it. *)
Theorem file_closed_iff_opened faults w w' r :
  main faults w = (w', r) ->
  exists new,
    history w' = history w ++ new /\
    ((Open "env.json", None) ∈ new ->
     exists body oc,
       new = body ++ [(Close "env.json", oc)] /\ unclosed body) /\
    ((Open "env.json", None) ∉ new -> unclosed new).
Proof.
  intros H.
  destruct (main_cases faults w w' r H)
    as [(k & c & e & Hk & Hc & _ & _ & _ & _ & _ & Hh)
       |(_ & _ & k & oc & _ & _ & _ & Hr)].
  - exists (take k opening ++ [(c, Some e)]).
    assert (Hun : unclosed (take k opening ++ [(c, Some e)])).
    { apply Forall_app. split.
      - apply Forall_take, unclosed_opening.
      - repeat constructor. by eapply unclosed_early. }
    split_and!; [done| |done].
    intros Hin. exfalso. unfold opening, returned in Hin.
    destruct k as [|[|[|k]]]; [..|lia]; injection Hc as <-;
      cbn [take map app] in Hin;
      repeat (apply elem_of_cons in Hin as [[=]|Hin]);
      by apply elem_of_nil in Hin.
  - destruct Hr as [(t & e & _ & _ & _ & _ & Hh)|(_ & _ & _ & Hh)].
    + exists (opening ++ written (take k chunks)
                ++ [(Write "env.json" t, Some e); (Close "env.json", oc)]).
      split_and!; [done| |].
      * intros _.
        exists (opening ++ written (take k chunks)
                  ++ [(Write "env.json" t, Some e)]), oc.
        split; [by rewrite <- !app_assoc|].
        unfold unclosed. rewrite !Forall_app.
        split_and!; [apply unclosed_opening|apply unclosed_written|].
        by repeat constructor.
      * intros Hnot. exfalso. apply Hnot, elem_of_app. left.
        apply open_in_opening.
    + exists (opening ++ written chunks ++ [(Close "env.json", oc)]).
      split_and!; [done| |].
      * intros _. exists (opening ++ written chunks), oc.
        split; [by rewrite <- !app_assoc|].
        unfold unclosed. rewrite Forall_app.
        split; [apply unclosed_opening|apply unclosed_written].
      * intros Hnot. exfalso. apply Hnot, elem_of_app. left.
        apply open_in_opening.
Qed.

(** X4 at a run from [used_world] in which the third write raises. *)
Lemma file_closed_iff_opened_witness :
  exists new,
    history (main broken_write used_world).1 = history used_world ++ new /\
    ((Open "env.json", None) ∈ new ->
     exists body oc,
       new = body ++ [(Close "env.json", oc)] /\ unclosed body) /\
    ((Open "env.json", None) ∉ new -> unclosed new).
Proof.
  exact (file_closed_iff_opened broken_write used_world _ _ (run_of _ _)).
Defined.

(** X5: nothing is retried or continued after a call raised: the only
    call a run makes after one is the closing of [env.json], right after a
    write to the file that raised. *)
Theorem nothing_after_a_raise_but_close faults w w' r :
  main faults w = (w', r) ->
  exists new,
    history w' = history w ++ new /\
    forall i j c e c' o,
      new !! i = Some (c, Some e) -> i < j -> new !! j = Some (c', o) ->
      j = S i /\ c' = Close "env.json" /\ exists t, c = Write "env.json" t.
Proof.
  intros H.
  destruct (main_cases faults w w' r H)
    as [(k & c0 & e0 & _ & _ & _ & _ & _ & _ & _ & Hh)
       |(_ & _ & k & oc & _ & _ & _ & Hr)].
  - exists (take k opening ++ [(c0, Some e0)]). split; [done|].
    intros i j c e c' o Hi Hij Hj.
    apply raised_after_quiet in Hi as [Hlen Hi];
      [|apply Forall_take, quiet_opening].
    rewrite lookup_app_r in Hj by lia.
    apply lookup_lt_Some in Hi. apply lookup_lt_Some in Hj.
    cbn [length] in Hi, Hj. lia.
  - destruct Hr as [(t & e0 & _ & _ & _ & _ & Hh)|(_ & _ & _ & Hh)].
    + exists ((opening ++ written (take k chunks))
                ++ [(Write "env.json" t, Some e0); (Close "env.json", oc)]).
      split; [by rewrite <- !app_assoc|].
      intros i j c e c' o Hi Hij Hj.
      apply raised_after_quiet in Hi as [Hlen Hi];
        [|apply Forall_app; split; [apply quiet_opening|apply quiet_written]].
      rewrite lookup_app_r in Hj by lia.
      remember (i - length (opening ++ written (take k chunks))) as i'.
      remember (j - length (opening ++ written (take k chunks))) as j'.
      assert (i' < j') by lia.
      destruct i' as [|[|i']]; [|..].
      * injection Hi as <- <-.
        destruct j' as [|[|j']]; [lia| |done].
        injection Hj as <- <-. split_and!; [lia|done|by exists t].
      * destruct j' as [|[|j']]; [lia|lia|done].
      * done.
    + exists ((opening ++ written chunks) ++ [(Close "env.json", oc)]).
      split; [by rewrite <- !app_assoc|].
      intros i j c e c' o Hi Hij Hj.
      apply raised_after_quiet in Hi as [Hlen Hi];
        [|apply Forall_app; split; [apply quiet_opening|apply quiet_written]].
      rewrite lookup_app_r in Hj by lia.
      apply lookup_lt_Some in Hi. apply lookup_lt_Some in Hj.
      cbn [length] in Hi, Hj. lia.
Qed.

(** X5 at a run from [used_world] in which the third write raises. *)
Lemma nothing_after_a_raise_but_close_witness :
  exists new,
    history (main broken_write used_world).1 = history used_world ++ new /\
    forall i j c e c' o,
      new !! i = Some (c, Some e) -> i < j -> new !! j = Some (c', o) ->
      j = S i /\ c' = Close "env.json" /\ exists t, c = Write "env.json" t.
Proof.
  exact (nothing_after_a_raise_but_close broken_write used_world _ _
           (run_of _ _)).
Defined.

(** X6: the exception a run ends with is the [OSError] of the last call
    that raised: when a write raised and closing the file raises too, the
    error of the closing is the one reported. *)
Theorem last_raise_is_reported faults w w' ex :
  main faults w = (w', inl ex) ->
  exists before c e after,
    history w' = history w ++ before ++ (c, Some e) :: after /\
    quiet after /\ ex = Py.OSError e.
Proof.
  intros H.
  destruct (main_cases faults w w' _ H)
    as [(k & c0 & e0 & _ & _ & _ & _ & [= ->] & _ & _ & Hh)
       |(_ & _ & k & oc & _ & _ & _ & Hr)].
  - exists (take k opening), c0, e0, []. by split_and!; [|constructor|].
  - destruct Hr as [(t & e0 & _ & _ & _ & [= ->] & Hh)|(_ & _ & Hr & Hh)].
    + destruct oc as [e'|].
      * exists (opening ++ written (take k chunks)
                  ++ [(Write "env.json" t, Some e0)]),
               (Close "env.json"), e', [].
        split_and!; [by rewrite Hh, <- !app_assoc|constructor|done].
      * exists (opening ++ written (take k chunks)),
               (Write "env.json" t), e0, [(Close "env.json", None)].
        split_and!; [by rewrite Hh, <- !app_assoc|by repeat constructor|done].
    + destruct oc as [e'|]; [|done]. injection Hr as ->.
      exists (opening ++ written chunks), (Close "env.json"), e', [].
      split_and!; [by rewrite Hh, <- !app_assoc|constructor|done].
Qed.

(** X6 at the run from the initial world in which the first call raises. *)
Lemma last_raise_is_reported_witness :
  exists before c e after,
    history (mkWorld EmptyString ∅ [(StdoutWrite rendered, Some 32)])
    = history initial_world ++ before ++ (c, Some e) :: after /\
    quiet after /\ Py.OSError 32 = Py.OSError e.
Proof.
  exact (last_raise_is_reported broken_stdout initial_world
           (mkWorld EmptyString ∅ [(StdoutWrite rendered, Some 32)])
           (Py.OSError 32) eq_refl).
Defined.

End RunEffects.

(** ** More on the loops and on the strings they build *)

Section MoreData.

Lemma length_flat_map_blocks (l : list (nat * string)) :
  length (flat_map region_block l) = 20 * length l.
Proof.
  induction l as [|ir l IH]; [done|].
  cbn [flat_map]. rewrite length_app, length_region_block, IH.
  cbn [length]. lia.
Qed.

(** X9: for any list of positions and regions and any list built so far,
    the loops end without exception, keep the records already there, and
    append twenty records for each region, in the order of the regions: the
    records of the region at place [i] of the list stand at the places
    [20 * i] to [20 * i + 19] of what is appended, and the one for the
    cluster index [c] is the dictionary of the loop body for that region,
    the tier [types] gives for its position, and [c]; with no region
    nothing is appended. *)
Theorem loops_append_twenty_per_region (l : list (nat * string))
    (d : list ClusterRecord) :
  exists tail,
    region_loop l d = inr (d ++ tail) /\
    length tail = 20 * length l /\
    forall i idx rg c,
      l !! i = Some (idx, rg) -> 1 <= c <= 20 ->
      exists env,
        types !! (idx mod 4) = Some env /\
        tail !! (20 * i + (c - 1))
        = Some (cluster_record rg env (Py.lower env) c).
Proof.
  exists (flat_map region_block l). split_and!.
  - apply region_loop_spec.
  - apply length_flat_map_blocks.
  - intros i idx rg c Hi Hc. exists (tier idx). split; [apply types_lookup|].
    rewrite (lookup_flat_map_uniform _ 20)
      by (apply length_region_block || lia).
    replace (20 * i + (c - 1)) with ((c - 1) + i * 20) by lia.
    rewrite Nat.div_add, Nat.Div0.mod_add by lia.
    rewrite Nat.div_small, Nat.mod_small by lia.
    cbn [Nat.add]. rewrite Hi.
    cbn [mbind option_bind]. unfold region_block, Py.range. cbn [fst snd].
    change (21 - 1) with 20.
    rewrite list_lookup_fmap, lookup_seq_lt by lia.
    cbn [fmap option_fmap option_map]. unfold record_at.
    do 2 f_equal. lia.
Qed.

(** The places one region takes, on a list of two regions whose positions
    are not consecutive. *)
Example loops_on_two_regions :
  (fun r => (region r, name r, type r)) <$>
    (match region_loop [(7, "north"); (2, "south")] [] with
     | inr tail => tail !! 20
     | inl _ => None
     end)
  = Some ("south", "C1", "STG").
Proof. reflexivity. Qed.

(** X10: two records of [data] have the same [urlPattern] exactly when
    they have the same [name] and the same [type]; the region is not part of
    it, so records of different regions share a pattern. *)
Theorem url_pattern_ignores_region :
  (forall r1 r2,
      r1 ∈ data -> r2 ∈ data ->
      (urlPattern r1 = urlPattern r2 <->
       name r1 = name r2 /\ type r1 = type r2)) /\
  (exists r1 r2,
      r1 ∈ data /\ r2 ∈ data /\ region r1 <> region r2 /\
      urlPattern r1 = urlPattern r2).
Proof.
  split.
  - assert (Hall : forallb (fun r1 => forallb (same_pattern_same_slot r1) data)
                     data = true) by (by vm_compute).
    intros r1 r2 H1%list_elem_of_In H2%list_elem_of_In.
    rewrite forallb_forall in Hall. specialize (Hall r1 H1).
    rewrite forallb_forall in Hall. specialize (Hall r2 H2).
    unfold same_pattern_same_slot in Hall.
    apply Bool.eqb_prop in Hall.
    rewrite <- String.eqb_eq, Hall, andb_true_iff, !String.eqb_eq. done.
  - exists (record_at 0 "R1" 1), (record_at 4 "R5" 1). split_and!.
    + apply (list_elem_of_lookup_2 data 0). reflexivity.
    + apply (list_elem_of_lookup_2 data 80). reflexivity.
    + discriminate.
    + reflexivity.
Qed.

(** X11: ten regions over four tiers do not divide evenly: DEV and TEST
    have three regions and sixty records each, STG and PRD two regions and
    forty records each. *)
Theorem tiers_are_uneven :
  length (records_of_tier "DEV") = 60 /\
  length (records_of_tier "TEST") = 60 /\
  length (records_of_tier "STG") = 40 /\
  length (records_of_tier "PRD") = 40 /\
  forall r, r ∈ data -> type r ∈ types.
Proof.
  split_and!; [by vm_compute..|].
  intros r (idx & rg & c & _ & _ & ->)%elem_of_data.
  rewrite type_record_at. eapply list_elem_of_lookup_2, types_lookup.
Qed.

Lemma escape_char_plain c :
  plain_char c = true -> Json.escape_char c = String c EmptyString.
Proof.
  unfold plain_char, Json.escape_char.
  generalize (nat_of_ascii c). intros n H.
  rewrite !andb_true_iff, !negb_true_iff, !Nat.leb_le, !Nat.eqb_neq in H.
  destruct H as [[[H1 H2] H3] H4].
  rewrite !(proj2 (Nat.eqb_neq n _)) by lia.
  by rewrite (proj2 (Nat.leb_le 32 n)), (proj2 (Nat.leb_le n 126)) by lia.
Qed.

Lemma escape_plain s : plain s = true -> Json.escape s = s.
Proof.
  induction s as [|c s IH]; [done|]. cbn [plain Json.escape].
  intros [Hc Hs]%andb_true_iff.
  by rewrite (escape_char_plain c Hc), append_cons, append_nil_l, IH.
Qed.

(** X12: a string of printable ASCII characters without double quote and
    backslash is printed between double quotes as it is, and every key and
    every value of every record of [data] is such a string: nothing in the
    output is escaped. *)
Theorem nothing_is_escaped :
  (forall s, plain s = true -> Json.encode_basestring_ascii s = quoted s) /\
  (forall r kv,
      r ∈ data -> kv ∈ items r -> plain kv.1 = true /\ plain kv.2 = true).
Proof.
  split.
  - intros s Hs. unfold Json.encode_basestring_ascii, quoted.
    by rewrite (escape_plain s Hs).
  - assert (Hall : forallb (fun r =>
                     forallb (fun kv => plain kv.1 && plain kv.2) (items r))
                     data = true) by (by vm_compute).
    intros r kv Hr%list_elem_of_In Hkv%list_elem_of_In.
    rewrite forallb_forall in Hall. specialize (Hall r Hr).
    rewrite forallb_forall in Hall. specialize (Hall kv Hkv).
    by apply andb_true_iff in Hall.
Qed.

Lemma lower_ascii_idemp c :
  Py.lower_ascii (Py.lower_ascii c) = Py.lower_ascii c.
Proof. by destruct c as [[] [] [] [] [] [] [] []]. Qed.

Lemma lower_idemp s : Py.lower (Py.lower s) = Py.lower s.
Proof.
  induction s as [|c s IH]; [done|].
  cbn [Py.lower]. by rewrite lower_ascii_idemp, IH.
Qed.

Lemma lower_app s1 s2 : Py.lower (s1 +:+ s2) = Py.lower s1 +:+ Py.lower s2.
Proof.
  induction s1 as [|c s1 IH]; [done|].
  rewrite append_cons. cbn [Py.lower]. by rewrite IH, append_cons.
Qed.

(** X13: both URL patterns of every record are in lower case throughout,
    although [name] and [type] are not. *)
Theorem url_patterns_are_lower_case :
  forall r,
    r ∈ data ->
    Py.lower (urlPattern r) = urlPattern r /\
    Py.lower (regionalUrlPattern r) = regionalUrlPattern r /\
    Py.lower (name r) <> name r /\ Py.lower (type r) <> type r.
Proof.
  intros r (idx & rg & c & _ & _ & ->)%elem_of_data.
  unfold record_at, cluster_record.
  cbn [urlPattern regionalUrlPattern name type]. split_and!.
  - by rewrite !lower_app, !lower_idemp.
  - by rewrite !lower_app, !lower_idemp.
  - discriminate.
  - pose proof (types_lookup idx) as Ht.
    apply list_elem_of_lookup_2 in Ht. unfold types in Ht.
    repeat (apply elem_of_cons in Ht as [->|Ht]); [discriminate..|].
    by apply elem_of_nil in Ht.
Qed.

(** X13 at the first record of [data]. *)
Lemma url_patterns_are_lower_case_witness :
  Py.lower (urlPattern (record_at 0 "R1" 1)) = urlPattern (record_at 0 "R1" 1)
  /\ Py.lower (regionalUrlPattern (record_at 0 "R1" 1))
     = regionalUrlPattern (record_at 0 "R1" 1)
  /\ Py.lower (name (record_at 0 "R1" 1)) <> name (record_at 0 "R1" 1)
  /\ Py.lower (type (record_at 0 "R1" 1)) <> type (record_at 0 "R1" 1).
Proof.
  apply url_patterns_are_lower_case.
  apply (list_elem_of_lookup_2 data 0). reflexivity.
Defined.

End MoreData.
